(** * RESTResource: method-based dispatch over nested resources

    A shallow embedding of [modules/admin/rest.py] (class [RESTResource])
    and the properties of its two entry points, [default] and
    [REST_dispatch].

    The Python code is effectful in three ways, all of them explicit here:
    - it raises exceptions ([outcome]);
    - it calls back into the application (the hooks [REST_instantiate] and
      [REST_create], the handlers found by [getattr], the built-in [list])
      and these may change anything ([world]);
    - it writes one field itself, [c.parent = resource], on a child
      dispatcher that is a shared, long-lived object ([heap], addressed by
      reference, so that aliasing between dispatchers is visible).

    Every call-back and every write is also recorded, in order, in a trace
    of [event]s; the trace is what "invokes", "never invokes" and "then"
    are stated about.

    Conventions of the model:
    - [cherrypy.request.method] is one string for the whole request;
    - call-backs are functions: a hook or handler returns or raises;
    - a log record is kept as the message that was formatted, not as the
      formatted text;
    - [REST_defaults] is the table of the base class; controllers choose
      other names through [REST_map], as the comment above the table
      says. *)

From stdpp Require Import gmap strings list fin_maps.
From Stdlib Require Import ZArith Lia.

Open Scope string_scope.
Set Warnings "-register-all".
Open Scope list_scope.
Open Scope nat_scope.

(** ** Python values *)

(** The values the dispatcher handles without looking inside: resources,
    handler results, parameter values, the value of an [expose_resource]
    attribute. *)
Inductive value : Type :=
| VNone
| VBool (b : bool)
| VInt (n : Z)
| VStr (s : string)
| VList (l : list value)
| VObj (o : nat).

(** Python truth value, as tested by [if x:] and [x and y]. *)
Definition truthy (v : value) : bool :=
  match v with
  | VNone => false
  | VBool b => b
  | VInt n => negb (n =? 0)%Z
  | VStr s => negb (String.eqb s "")
  | VList l => match l with [] => false | _ => true end
  | VObj _ => true
  end.

(** Keyword arguments [**params]. *)
Definition kwargs : Type := list (string * value).

(** Exceptions. [cherrypy.NotFound] and [cherrypy.HTTPError(status=...)]
    are the two the module raises itself; the others come from the Python
    run time or from the application. *)
Inductive exn : Type :=
| NotFound
| HTTPError (status : Z)
| AttributeError
| TypeError
| IndexError
| OtherError (name : string).

Inductive outcome (X : Type) : Type :=
| Return (x : X)
| Raise (e : exn).
Arguments Return {X} x.
Arguments Raise {X} e.

(** ** Dispatcher objects *)

Definition ref : Type := nat.

(** What [getattr(self, name)] finds: an object of which the dispatcher
    uses the truth value ([if m and ...]) and the attribute
    [expose_resource] ([None] when the object has no such attribute, so
    that [getattr(m, "expose_resource")] raises [AttributeError]). *)
Record member : Type := Member {
  m_bool : bool;
  m_expose_resource : option value
}.

(** A function or bound method is always true in Python. *)
Definition function (expose_resource : option value) : member :=
  {| m_bool := true; m_expose_resource := expose_resource |}.

(** "Marked resource-exposed": the object is true and carries a true
    [expose_resource]. *)
Definition exposed (m : member) : bool :=
  m_bool m &&
  match m_expose_resource m with
  | Some flag => truthy flag
  | None => false
  end.

(** An instance of (a subclass of) [RESTResource]. [attrs] is what
    attribute lookup finds for each name, apart from the instance
    attribute [parent], which [default] assigns. *)
Record dispatcher : Type := Dispatcher {
  REST_map : gmap string string;
  REST_children : gmap string ref;
  attrs : gmap string member;
  parent : option value
}.

(** The class attribute [REST_defaults]. *)
Definition REST_defaults : gmap string string :=
  {[ "DELETE" := "delete"; "GET" := "index"; "POST" := "add"; "PUT" := "update" ]}.

(** A bare [RESTResource()]: [REST_map = {}], [REST_children = {}]. *)
Definition RESTResource : dispatcher :=
  {| REST_map := ∅; REST_children := ∅; attrs := ∅; parent := None |}.

#[global] Instance dispatcher_inhabited : Inhabited dispatcher :=
  populate RESTResource.

(** [c.parent = resource] *)
Definition with_parent (d : dispatcher) (resource : value) : dispatcher :=
  {| REST_map := REST_map d; REST_children := REST_children d;
     attrs := attrs d; parent := Some resource |}.

(** The fields of a dispatcher other than [parent]. *)
Definition same_config (d1 d2 : dispatcher) : Prop :=
  REST_map d1 = REST_map d2 ∧ REST_children d1 = REST_children d2 ∧
  attrs d1 = attrs d2.

(** ** World, events *)

(** The dispatcher objects by reference, and the application's own state.
    A reference that is not bound denotes a bare [RESTResource]. *)
Record world (A : Type) : Type := World {
  heap : gmap ref dispatcher;
  app_state : A
}.
Arguments World {A} heap app_state.
Arguments heap {A} w.
Arguments app_state {A} w.

Definition set_parent {A} (c : ref) (resource : value) (w : world A) : world A :=
  {| heap := <[c := with_parent (heap w !!! c) resource]> (heap w);
     app_state := app_state w |}.

(** The messages passed to [self.logger.warning]. *)
Inductive log_msg : Type :=
| MsgVpath (vpath : list string)
    (* "RESTResource: default: vpath  = {}".format(vpath) *)
| MsgParams
    (* "RESTResource: default: params = 'tuple index out of range'" *)
| MsgUnsupported (method : string) (resource : value).
    (* "REST_dispatch: Unsupported method  = {} for resource '{}'" *)

Inductive event : Type :=
| EWarning (msg : log_msg)
| EInstantiate (self : ref) (id : string) (res : outcome value)
| ECreate (self : ref) (id : string) (res : outcome value)
| ESetParent (child : ref) (resource : value)
| EInvoke (self : ref) (name : string) (m : member) (resource : value)
          (args : list string) (params : kwargs) (res : outcome value)
| EList (params : kwargs) (res : outcome value).

(** ** The application *)

(** What a subclass and its surroundings supply: the two hooks that "MUST
    be overridden", the behaviour of calling the attribute [name] of
    [self] as [m(resource, *args, **params)], and how a resource stored in
    [parent] looks when it is found again by [getattr(self, "parent")]. *)
Record Application (A : Type) : Type := {
  REST_instantiate : ref → string → world A → outcome value * world A;
  REST_create : ref → string → world A → outcome value * world A;
  call : ref → string → value → list string → kwargs → world A →
         outcome value * world A;
  as_attribute : value → member
}.
Arguments REST_instantiate {A} _ _ _ _.
Arguments REST_create {A} _ _ _ _.
Arguments call {A} _ _ _ _ _ _ _.
Arguments as_attribute {A} _ _.

(** The built-in [list] called as [list( **params)] (the module defines no
    [list] of its own, and the call is not [self.list]): [list()] is [[]],
    and [list] takes no keyword arguments. *)
Definition builtin_list (params : kwargs) : outcome value :=
  match params with
  | [] => Return (VList [])
  | _ :: _ => Raise TypeError
  end.

Section Dispatch.
Context {A : Type}.
Variable app : Application A.
(** [cherrypy.request.method], fixed for the request being served. *)
Variable method : string.

(** *** Computations: exceptions, world, trace *)

Definition M (X : Type) : Type := world A → outcome X * world A * list event.

Definition ret {X} (x : X) : M X := λ w, (Return x, w, []).
Definition raise {X} (e : exn) : M X := λ w, (Raise e, w, []).

Definition bind {X Y} (c : M X) (k : X → M Y) : M Y := λ w,
  match c w with
  | (Return x, w1, t1) => let '(o, w2, t2) := k x w1 in (o, w2, t1 ++ t2)
  | (Raise e, w1, t1) => (Raise e, w1, t1)
  end.

(** [try: c  except: h] with a bare [except], which catches everything. *)
Definition try_except {X} (c : M X) (h : M X) : M X := λ w,
  match c w with
  | (Return x, w1, t1) => (Return x, w1, t1)
  | (Raise _, w1, t1) => let '(o, w2, t2) := h w1 in (o, w2, t1 ++ t2)
  end.

Definition emit (ev : event) : M unit := λ w, (Return tt, w, [ev]).
Definition warning (msg : log_msg) : M unit := emit (EWarning msg).

(** An application call-back: run it, record it with its outcome. *)
Definition callback (f : world A → outcome value * world A)
    (ev : outcome value → event) : M value := λ w,
  let '(o, w1) := f w in (o, w1, [ev o]).

Definition get_self (self : ref) : M dispatcher := λ w,
  (Return (heap w !!! self), w, []).

Definition assign_parent (c : ref) (resource : value) : M unit := λ w,
  (Return tt, set_parent c resource w, [ESetParent c resource]).

Notation "x <- c ;; k" := (bind c (λ x, k))
  (at level 100, c at next level, right associativity).
Notation "c ;;; k" := (bind c (λ _, k))
  (at level 100, right associativity).

(** [getattr(self, name)]: the instance attribute [parent] first, then
    the rest. [None] stands for [AttributeError] (or for the default
    [None] of the three-argument form). *)
Definition py_getattr (d : dispatcher) (name : string) : option member :=
  if decide (name = "parent") then
    match parent d with
    | Some resource => Some (as_attribute app resource)
    | None => attrs d !! name
    end
  else attrs d !! name.

(** [m(resource, *args, **params)] for [m = getattr(self, name)]. *)
Definition invoke (self : ref) (name : string) (m : member)
    (resource : value) (args : list string) (params : kwargs) : M value :=
  callback (call app self name resource args params)
           (EInvoke self name m resource args params).

(** *** REST_dispatch *)

(** One branch of [REST_dispatch], the same text for both mappings:
<<
    try:
        m = getattr(self, name)
    except:
        self.logger.warning(...)
        raise cherrypy.HTTPError(status=400)
    try:
        if m and getattr(m, "expose_resource"):
            return m(resource, **params)
    except:
        pass
>>
    followed by the function's last line, [raise cherrypy.NotFound]. *)
Definition dispatch_to (self : ref) (name : string) (resource : value)
    (params : kwargs) : M value :=
  d <- get_self self ;;
  match py_getattr d name with
  | None =>
      warning (MsgUnsupported method resource) ;;;
      raise (HTTPError 400)
  | Some m =>
      try_except
        (if m_bool m then
           match m_expose_resource m with
           | None => raise AttributeError
           | Some flag =>
               if truthy flag then invoke self name m resource [] params
               else raise NotFound
           end
         else raise NotFound)
        (raise NotFound)
  end.

Definition REST_dispatch (self : ref) (resource : value) (params : kwargs)
    : M value :=
  d <- get_self self ;;
  match REST_map d !! method with
  | Some name => dispatch_to self name resource params
  | None =>
      match REST_defaults !! method with
      | Some name => dispatch_to self name resource params
      | None => raise NotFound
      end
  end.

(** *** default *)

(** On the empty path the code first tries to log
    ["...'{}'".format( **params)]; with no positional argument [format]
    raises [IndexError] whatever [params] is, so the record that is written
    is always the one of the [except] branch, [MsgParams]. The copy
    [vpath = list(vpath)] and the two [vpath.pop(0)] are the two pattern
    matches on the path. *)
Fixpoint default (self : ref) (vpath : list string) (params : kwargs)
    {struct vpath} : M value :=
  warning (MsgVpath vpath) ;;;
  match vpath with
  | [] =>
      warning MsgParams ;;;
      callback (λ w, (builtin_list params, w)) (EList params)
  | atom :: vpath =>
      resource <- callback (REST_instantiate app self atom)
                           (EInstantiate self atom) ;;
      resource <- match resource with
                  | VNone =>
                      if decide (method = "PUT") then
                        callback (REST_create app self atom)
                                 (ECreate self atom)
                      else raise NotFound
                  | _ => ret resource
                  end ;;
      match vpath with
      | a :: vpath =>
          d <- get_self self ;;
          match REST_children d !! a with
          | Some c =>
              assign_parent c resource ;;;
              default c vpath params
          | None =>
              match py_getattr d a with
              | Some m =>
                  if m_bool m then
                    match m_expose_resource m with
                    | None => raise AttributeError
                    | Some flag =>
                        if truthy flag then
                          invoke self a m resource vpath params
                        else raise NotFound
                    end
                  else raise NotFound
              | None => raise NotFound
              end
          end
      | [] => REST_dispatch self resource params
      end
  end.

(** The first step of [default] on a non-empty path, on its own: the
    segment [atom] becomes a resource, by [REST_instantiate] and, for
    PUT, by [REST_create]. *)
Definition resolve (self : ref) (atom : string) : M value :=
  resource <- callback (REST_instantiate app self atom)
                       (EInstantiate self atom) ;;
  match resource with
  | VNone =>
      if decide (method = "PUT") then
        callback (REST_create app self atom) (ECreate self atom)
      else raise NotFound
  | _ => ret resource
  end.

(** Its step on a second segment [a] that is not a key of
    [REST_children], on its own: the attribute [a] of the dispatcher is
    called with the resource and the rest of the path. *)
Definition via_attribute (self : ref) (a : string) (resource : value)
    (vpath : list string) (params : kwargs) : M value :=
  d <- get_self self ;;
  match py_getattr d a with
  | Some m =>
      if m_bool m then
        match m_expose_resource m with
        | None => raise AttributeError
        | Some flag =>
            if truthy flag then invoke self a m resource vpath params
            else raise NotFound
        end
      else raise NotFound
  | None => raise NotFound
  end.

End Dispatch.

Arguments default {A} app method self vpath params w.
Arguments REST_dispatch {A} app method self resource params w.
Arguments dispatch_to {A} app method self name resource params w.
Arguments py_getattr {A} app d name.
Arguments resolve {A} app method self atom w.
Arguments via_attribute {A} app self a resource vpath params w.

(** ** Reading a run *)

Definition outcome_of {A X} (r : outcome X * world A * list event) : outcome X :=
  r.1.1.
Definition world_of {A X} (r : outcome X * world A * list event) : world A :=
  r.1.2.
Definition trace_of {A X} (r : outcome X * world A * list event) : list event :=
  r.2.

(** The handler name a verb is mapped to: by the per-type override map when
    the verb is one of its keys, else by the default map. *)
Definition mapped_name (d : dispatcher) (method : string) : option string :=
  match REST_map d !! method with
  | Some name => Some name
  | None => REST_defaults !! method
  end.

(** The calls a walk can end in: a handler, or the built-in [list] of the
    empty path. *)
Definition is_terminal (ev : event) : bool :=
  match ev with
  | EInvoke _ _ _ _ _ _ _ | EList _ _ => true
  | _ => false
  end.

Definition is_delegation (ev : event) : bool :=
  match ev with
  | ESetParent _ _ => true
  | _ => false
  end.

Fixpoint count (p : event → bool) (t : list event) : nat :=
  match t with
  | [] => 0
  | ev :: t => (if p ev then 1 else 0) + count p t
  end.

Definition is_invoke (ev : event) : bool :=
  match ev with
  | EInvoke _ _ _ _ _ _ _ => true
  | _ => false
  end.

Definition delegations : list event → nat := count is_delegation.

(** Only objects marked resource-exposed are called. *)
Definition invokes_exposed (ev : event) : Prop :=
  match ev with
  | EInvoke _ _ m _ _ _ _ => exposed m = true
  | _ => True
  end.

(** The outcome of the call-back an event records. *)
Definition event_result (ev : event) : option (outcome value) :=
  match ev with
  | EInstantiate _ _ res | ECreate _ _ res
  | EInvoke _ _ _ _ _ _ res | EList _ res => Some res
  | EWarning _ | ESetParent _ _ => None
  end.

(** The run failed with [e] because its last call-back raised [e]. *)
Definition raised_by_callback (e : exn) (t : list event) : Prop :=
  ∃ t0 ev, t = t0 ++ [ev] ∧ event_result ev = Some (Raise e).

(** How a walk ends. Its trace is a run of steps that call no handler,
    followed either by one call of a handler or of [list], the last thing
    that happens, whose result is the outcome (or which raised, the outcome
    being NotFound), or by nothing, the outcome being a failure. Of a
    failure with [AttributeError] nothing more is said; any other is
    NotFound, status 400, or what the last call-back raised. *)
Definition walk_end (o : outcome value) (t : list event) : Prop :=
  ∃ t0, Forall (λ ev, is_terminal ev = false) t0 ∧
    ((∃ ev, t = t0 ++ [ev] ∧ is_terminal ev = true ∧
            (event_result ev = Some o ∨
             (o = Raise NotFound ∧ ∃ e, event_result ev = Some (Raise e))))
     ∨ (t = t0 ∧ ∃ e, o = Raise e ∧
          (e ≠ AttributeError →
           e = NotFound ∨ e = HTTPError 400 ∨ raised_by_callback e t0))).

(** The field writes recorded in a trace, replayed on a heap. *)
Definition apply_write (h : gmap ref dispatcher) (ev : event)
    : gmap ref dispatcher :=
  match ev with
  | ESetParent c resource => <[c := with_parent (h !!! c) resource]> h
  | _ => h
  end.

Definition apply_writes (t : list event) (h : gmap ref dispatcher)
    : gmap ref dispatcher :=
  foldl apply_write h t.

Definition delegated_to (c : ref) (t : list event) : Prop :=
  ∃ resource, ESetParent c resource ∈ t.

(** [c] is registered in the child registry of [s]. *)
Definition child_of (h : gmap ref dispatcher) (s c : ref) : Prop :=
  ∃ name, REST_children (h !!! s) !! name = Some c.

(** The application's call-backs leave the dispatcher objects alone. *)
Definition callbacks_keep_heap {A} (app : Application A) : Prop :=
  (∀ self id w, heap (REST_instantiate app self id w).2 = heap w) ∧
  (∀ self id w, heap (REST_create app self id w).2 = heap w) ∧
  (∀ self name resource args params w,
     heap (call app self name resource args params w).2 = heap w).

(** ** A concrete site

    The controllers of the module's own documentation: a [UserController]
    whose [REST_children] is [{'posts': PostController()}], for URLs such as
    [/user/bob/posts/my-first-post]. Two more controllers exercise the
    per-type override [REST_map] and a child registry that leads back to
    the controller itself. *)
Module Site.

Definition user_controller : ref := 0.
Definition post_controller : ref := 1.
Definition folder_controller : ref := 2.
Definition article_controller : ref := 3.

Definition marked : member := function (Some (VBool true)).
Definition unmarked : member := function None.

(** The methods every subclass inherits from [RESTResource]; none of them
    carries [expose_resource]. *)
Definition inherited : gmap string member :=
  {[ "default" := unmarked; "REST_dispatch" := unmarked;
     "REST_instantiate" := unmarked; "REST_create" := unmarked ]}.

Definition UserController : dispatcher :=
  {| REST_map := ∅;
     REST_children := {[ "posts" := post_controller ]};
     attrs := {[ "index" := marked; "delete" := marked; "update" := marked;
                 "add" := marked; "extra_action" := marked;
                 "posts" := marked ]} ∪ inherited;
     parent := None |}.

Definition PostController : dispatcher :=
  {| REST_map := ∅;
     REST_children := ∅;
     attrs := {[ "index" := marked; "delete" := marked; "update" := marked;
                 "add" := function (Some (VBool false));
                 "broken" := marked ]} ∪ inherited;
     parent := None |}.

(** Folders contain folders: the controller is registered as its own
    child. *)
Definition FolderController : dispatcher :=
  {| REST_map := ∅;
     REST_children := {[ "sub" := folder_controller ]};
     attrs := {[ "index" := marked ]} ∪ inherited;
     parent := None |}.

(** A controller that prefers other method names. *)
Definition ArticleController : dispatcher :=
  {| REST_map := {[ "PUT" := "save"; "POST" := "broken"; "PATCH" := "patch" ]};
     REST_children := ∅;
     attrs := {[ "index" := marked; "save" := marked; "update" := marked;
                 "broken" := marked ]} ∪ inherited;
     parent := None |}.

Definition controllers : gmap ref dispatcher :=
  {[ user_controller := UserController;
     post_controller := PostController;
     folder_controller := FolderController;
     article_controller := ArticleController ]}.

(** The application state: the names in the database, in order of
    creation. The resource of a name is the object at its position. *)
Fixpoint position (name : string) (db : list string) : option nat :=
  match db with
  | [] => None
  | n :: db => if decide (n = name) then Some 0 else S <$> position name db
  end.

Definition start : world (list string) :=
  {| heap := controllers; app_state := ["bob"] |}.

(** A post is found only under the user it belongs to: the hook reads
    [self.parent], as in the documentation. *)
Definition instantiate (self : ref) (id : string) (w : world (list string))
    : outcome value * world (list string) :=
  if decide (self = post_controller) then
    match parent (heap w !!! self) with
    | Some (VObj 0) =>
        if decide (id = "my-first-post") then (Return (VObj 100), w)
        else (Return VNone, w)
    | _ => (Return VNone, w)
    end
  else
    match position id (app_state w) with
    | Some n => (Return (VObj n), w)
    | None => (Return VNone, w)
    end.

Definition create (self : ref) (id : string) (w : world (list string))
    : outcome value * world (list string) :=
  (Return (VObj (length (app_state w))),
   {| heap := heap w; app_state := app_state w ++ [id] |}).

Definition handler (self : ref) (name : string) (resource : value)
    (args : list string) (params : kwargs) (w : world (list string))
    : outcome value * world (list string) :=
  if decide (name = "index") then (Return (VList [VStr "html"; resource]), w)
  else if decide (name = "broken") then
    (Raise (OtherError "ValueError"),
     {| heap := heap w; app_state := app_state w ++ ["half-done"] |})
  else (Return (VStr "ok"), w).

Definition site : Application (list string) :=
  {| REST_instantiate := instantiate;
     REST_create := create;
     call := handler;
     as_attribute := λ v, {| m_bool := truthy v; m_expose_resource := None |} |}.

End Site.

(** ** The hooks of the base class *)

(** [REST_instantiate] and [REST_create] as [RESTResource] itself has
    them: a docstring, then [raise cherrypy.NotFound]. A controller that
    does not override a hook has this one. *)
Definition REST_instantiate_base {A} (self : ref) (id : string) (w : world A)
    : outcome value * world A :=
  (Raise NotFound, w).

Definition REST_create_base {A} (self : ref) (id : string) (w : world A)
    : outcome value * world A :=
  (Raise NotFound, w).

(** ** More readings of a trace *)

Definition is_create (ev : event) : bool :=
  match ev with
  | ECreate _ _ _ => true
  | _ => false
  end.

(** The ids handed to [REST_instantiate], in order. *)
Fixpoint resolved_ids (t : list event) : list string :=
  match t with
  | [] => []
  | EInstantiate _ id _ :: t => id :: resolved_ids t
  | _ :: t => resolved_ids t
  end.

(** The segments of a path at positions 0, 2, 4, ... *)
Fixpoint even_segments (vpath : list string) : list string :=
  match vpath with
  | [] => []
  | id :: rest =>
      id :: match rest with
            | [] => []
            | _ :: rest => even_segments rest
            end
  end.

(** The resource of the last [c.parent = resource] in a trace, if any. *)
Fixpoint last_parent (c : ref) (t : list event) : option value :=
  match t with
  | [] => None
  | ev :: t =>
      match last_parent c t with
      | Some resource => Some resource
      | None =>
          match ev with
          | ESetParent c' resource =>
              if decide (c' = c) then Some resource else None
          | _ => None
          end
      end
  end.

(** The application's call-backs only read. *)
Definition callbacks_pure {A} (app : Application A) : Prop :=
  (∀ self id w, (REST_instantiate app self id w).2 = w) ∧
  (∀ self id w, (REST_create app self id w).2 = w) ∧
  (∀ self name resource args params w,
     (call app self name resource args params w).2 = w).

(** ** Variants of the site *)
Module Variants.

(** No hook overridden. *)
Definition bare_site : Application (list string) :=
  {| REST_instantiate := REST_instantiate_base;
     REST_create := REST_create_base;
     call := Site.handler;
     as_attribute := λ v, {| m_bool := truthy v; m_expose_resource := None |} |}.

(** Only [REST_instantiate] overridden, and handlers that only read. *)
Definition static_site : Application (list string) :=
  {| REST_instantiate := Site.instantiate;
     REST_create := REST_create_base;
     call := λ self name resource args params w,
       (Return (VList [VStr name; resource]), w);
     as_attribute := λ v, {| m_bool := truthy v; m_expose_resource := None |} |}.

End Variants.


(** * Properties *)

(** Unfold the plumbing of a computation, keeping [default] folded. *)
Ltac unfold_M :=
  unfold resolve, via_attribute, REST_dispatch, dispatch_to, invoke, callback, assign_parent,
    get_self, warning, emit, try_except, bind, ret, raise in *.

Ltac run := cbn [default]; unfold_M; cbn beta iota.

Section Verb_dispatch.
Context {A : Type} (app : Application A) (method : string).
Implicit Types (self : ref) (w : world A) (m : member) (params : kwargs).

Lemma exposed_inv m :
  exposed m = true →
  m_bool m = true ∧ ∃ flag, m_expose_resource m = Some flag ∧ truthy flag = true.
Proof.
  unfold exposed. intros [Hb Hf]%andb_prop. split; [done|].
  destruct (m_expose_resource m) as [flag|]; [eauto | discriminate].
Qed.

Lemma REST_dispatch_mapped self name resource params w :
  mapped_name (heap w !!! self) method = Some name →
  REST_dispatch app method self resource params w
  = dispatch_to app method self name resource params w.
Proof.
  unfold mapped_name, REST_dispatch, get_self, bind. intros Hname.
  destruct (REST_map (heap w !!! self) !! method) as [n|].
  - injection Hname as ->.
    by destruct (dispatch_to _ _ _ _ _ _ _) as [[[]]].
  - rewrite Hname. by destruct (dispatch_to _ _ _ _ _ _ _) as [[[]]].
Qed.

Lemma dispatch_to_exposed self name resource params w m :
  py_getattr app (heap w !!! self) name = Some m →
  exposed m = true →
  dispatch_to app method self name resource params w
  = let '(o, w') := call app self name resource [] params w in
    (match o with Return v => Return v | Raise _ => Raise NotFound end,
     w', [EInvoke self name m resource [] params o]).
Proof.
  intros Hm (Hb & flag & Hflag & Ht)%exposed_inv. unfold_M.
  rewrite Hm, Hb, Hflag, Ht.
  by destruct (call _ _ _ _ _ _ _) as [[v|e] w'].
Qed.

Lemma dispatch_to_unexposed self name resource params w m :
  py_getattr app (heap w !!! self) name = Some m →
  exposed m = false →
  dispatch_to app method self name resource params w = (Raise NotFound, w, []).
Proof.
  intros Hm He. unfold_M. rewrite Hm. unfold exposed in He.
  destruct (m_bool m); [|done].
  destruct (m_expose_resource m) as [flag|]; [|done].
  cbn in He. by rewrite He.
Qed.

Lemma dispatch_to_absent self name resource params w :
  py_getattr app (heap w !!! self) name = None →
  dispatch_to app method self name resource params w
  = (Raise (HTTPError 400), w, [EWarning (MsgUnsupported method resource)]).
Proof. intros Hm. unfold_M. by rewrite Hm. Qed.

Lemma REST_dispatch_unmapped self resource params w :
  mapped_name (heap w !!! self) method = None →
  REST_dispatch app method self resource params w = (Raise NotFound, w, []).
Proof.
  unfold mapped_name. intros Hname. unfold_M.
  destruct (REST_map (heap w !!! self) !! method); [done|]. by rewrite Hname.
Qed.

(** C6. Verb dispatch with a verb that is mapped, by the override map or
    else by the default map, to a name the instance has no attribute for,
    logs one warning and fails with HTTP status 400; with a verb that is
    a key of neither map it fails with NotFound, and logs nothing. *)
Theorem REST_dispatch_bad_request_or_not_found self resource params w :
  (∀ name,
     mapped_name (heap w !!! self) method = Some name →
     py_getattr app (heap w !!! self) name = None →
     REST_dispatch app method self resource params w
     = (Raise (HTTPError 400), w, [EWarning (MsgUnsupported method resource)]))
  ∧ (REST_map (heap w !!! self) !! method = None →
     REST_defaults !! method = None →
     REST_dispatch app method self resource params w = (Raise NotFound, w, [])).
Proof.
  split.
  - intros name Hname Habsent.
    rewrite (REST_dispatch_mapped _ name) by done.
    by apply dispatch_to_absent.
  - intros Hmap Hdef. apply REST_dispatch_unmapped.
    unfold mapped_name. by rewrite Hmap.
Qed.

(** C7. When the handler the verb is mapped to exists and is marked
    resource-exposed but raises, whatever it raises, verb dispatch fails
    with NotFound: nothing is logged, and the world is the one the
    handler left behind. *)
Theorem REST_dispatch_swallows_handler_exception
    self name resource params w m e w' :
  mapped_name (heap w !!! self) method = Some name →
  py_getattr app (heap w !!! self) name = Some m →
  exposed m = true →
  call app self name resource [] params w = (Raise e, w') →
  REST_dispatch app method self resource params w
  = (Raise NotFound, w', [EInvoke self name m resource [] params (Raise e)]).
Proof.
  intros Hname Hm He Hcall.
  rewrite (REST_dispatch_mapped _ name) by done.
  rewrite (dispatch_to_exposed _ _ _ _ _ m) by done.
  by rewrite Hcall.
Qed.


End Verb_dispatch.

Section Path_walk.
Context {A : Type} (app : Application A).
Implicit Types (self c : ref) (w : world A) (m : member) (params : kwargs)
  (method id a : string) (vpath rest : list string).

(** The walk over a non-empty path once its first segment is resolved,
    be it by [REST_instantiate] or, for PUT, by [REST_create]. *)
Lemma default_single method self id params w w1 resource pre :
  resolve app method self id w = (Return resource, w1, pre) →
  default app method self [id] params w
  = let '(o, w', t) := REST_dispatch app method self resource params w1 in
    (o, w', EWarning (MsgVpath [id]) :: pre ++ t).
Proof.
  intros Hres. cbn [default]. unfold resolve in Hres.
  destruct (REST_dispatch _ _ _ _ _ _) as [[o w'] t] eqn:Hd.
  unfold bind, callback, warning, emit, ret, raise in *. cbn beta iota.
  destruct (REST_instantiate app self id w) as [[r|e] w0]; [|done].
  destruct r; try (injection Hres as <- <- <-; by rewrite Hd).
  destruct (decide (method = "PUT")) as [Hput|Hput]; [|done].
  destruct (REST_create app self id w0) as [[r|e'] w2]; [|done].
  injection Hres as <- <- <-. by rewrite Hd.
Qed.


(** C3. A one-segment path whose id [REST_instantiate] does not resolve,
    under any verb other than PUT: [default] fails with NotFound, having
    called neither [REST_create] nor a handler. *)
Theorem default_unresolved_not_found method self id params w w1 :
  method ≠ "PUT" →
  REST_instantiate app self id w = (Return VNone, w1) →
  default app method self [id] params w
  = (Raise NotFound, w1,
     [EWarning (MsgVpath [id]); EInstantiate self id (Return VNone)]).
Proof.
  intros Hverb Hinst. run. rewrite Hinst.
  by destruct (decide (method = "PUT")).
Qed.

(** C8. On the empty path [default] calls the built-in [list] with the
    parameters as keywords, with no resource and without consulting the
    application, and its outcome is the outcome of that call. *)
Theorem default_empty_path method self params w :
  default app method self [] params w
  = (builtin_list params, w,
     [EWarning (MsgVpath []); EWarning MsgParams;
      EList params (builtin_list params)]).
Proof. reflexivity. Qed.

(** C4. On a path [id :: a :: rest] whose id resolves and whose second
    segment is a key of [REST_children], [default] assigns the resource
    to [parent] of that child and goes on as the child's [default] on
    [rest] with the same parameters, whose outcome is its own. Nothing is
    assumed of the attribute [a] of the dispatcher: the registry is
    looked at first. *)
Theorem default_delegates_to_child method self id a rest params w resource w1 c :
  REST_instantiate app self id w = (Return resource, w1) →
  resource ≠ VNone →
  REST_children (heap w1 !!! self) !! a = Some c →
  parent (heap (set_parent c resource w1) !!! c) = Some resource
  ∧ default app method self (id :: a :: rest) params w
    = let '(o, w', t) :=
        default app method c rest params (set_parent c resource w1) in
      (o, w',
       EWarning (MsgVpath (id :: a :: rest))
       :: EInstantiate self id (Return resource)
       :: ESetParent c resource :: t).
Proof.
  intros Hinst Hres Hchild. split.
  - cbn. by rewrite lookup_total_insert_eq.
  - run. rewrite Hinst.
    destruct resource; try done; cbn; rewrite Hchild;
      by destruct (default _ _ _ _ _ _) as [[res w'] t].
Qed.


End Path_walk.

(** ** The walk, step by step *)

Section Steps.
Context {A : Type} (app : Application A).
Implicit Types (self c : ref) (w : world A) (m : member) (params : kwargs)
  (method id a : string) (vpath rest : list string).

(** Paths are consumed two segments at a time. *)
Lemma vpath_ind (P : list string → Prop) :
  P [] → (∀ id, P [id]) → (∀ id a rest, P rest → P (id :: a :: rest)) →
  ∀ vpath, P vpath.
Proof.
  intros Hnil Hone Hmore.
  cut (∀ vpath, P vpath ∧ ∀ id, P (id :: vpath)); [intros H vpath; apply H|].
  induction vpath as [|a rest [IH1 IH2]]; split; auto.
Qed.

Lemma default_nil method self params w :
  default app method self [] params w
  = (builtin_list params, w,
     [EWarning (MsgVpath []); EWarning MsgParams;
      EList params (builtin_list params)]).
Proof. reflexivity. Qed.

Lemma default_one method self id params w :
  default app method self [id] params w
  = match resolve app method self id w with
    | (Return resource, w1, pre) =>
        let '(o, w', t) := REST_dispatch app method self resource params w1 in
        (o, w', EWarning (MsgVpath [id]) :: pre ++ t)
    | (Raise e, w1, pre) => (Raise e, w1, EWarning (MsgVpath [id]) :: pre)
    end.
Proof.
  destruct (resolve app method self id w) as [[[resource|e] w1] pre] eqn:Hres.
  - by apply default_single.
  - cbn [default]. unfold resolve in Hres.
    unfold bind, callback, warning, emit, ret, raise in *. cbn beta iota.
    destruct (REST_instantiate app self id w) as [[r|e0] w0];
      [|by injection Hres as <- <- <-].
    destruct r; try done.
    destruct (decide (method = "PUT")) as [Hput|Hput];
      [|by injection Hres as <- <- <-].
    destruct (REST_create app self id w0) as [[r|e'] w2]; [done|].
    by injection Hres as <- <- <-.
Qed.

Lemma default_more method self id a rest params w :
  default app method self (id :: a :: rest) params w
  = match resolve app method self id w with
    | (Return resource, w1, pre) =>
        match REST_children (heap w1 !!! self) !! a with
        | Some c =>
            let '(o, w', t) :=
              default app method c rest params (set_parent c resource w1) in
            (o, w',
             EWarning (MsgVpath (id :: a :: rest))
             :: pre ++ ESetParent c resource :: t)
        | None =>
            let '(o, w', t) :=
              via_attribute app self a resource rest params w1 in
            (o, w', EWarning (MsgVpath (id :: a :: rest)) :: pre ++ t)
        end
    | (Raise e, w1, pre) =>
        (Raise e, w1, EWarning (MsgVpath (id :: a :: rest)) :: pre)
    end.
Proof.
  cbn [default]. unfold_M. cbn beta iota.
  repeat case_match; simplify_eq; done.
Qed.

End Steps.

(** ** What holds along every walk *)

Section Walk.
Context {A : Type} (app : Application A).
Implicit Types (self c : ref) (w : world A) (m : member) (params : kwargs)
  (method id a : string) (vpath rest : list string) (t pre : list event).

Lemma count_app p t1 t2 : count p (t1 ++ t2) = count p t1 + count p t2.
Proof. induction t1 as [|ev t1 IH]; cbn; [done|]. rewrite IH. lia. Qed.

Lemma count_cons p ev t :
  count p (ev :: t) = (if p ev then 1 else 0) + count p t.
Proof. done. Qed.

Lemma count_quiet p t : Forall (λ ev, p ev = false) t → count p t = 0.
Proof. induction 1 as [|ev t Hev _ IH]; cbn; [done|]. by rewrite Hev, IH. Qed.

Lemma raised_by_callback_app e pre t :
  raised_by_callback e t → raised_by_callback e (pre ++ t).
Proof.
  intros (t0 & ev & -> & Hev). exists (pre ++ t0), ev.
  by rewrite app_assoc.
Qed.

Lemma walk_end_app o pre t :
  Forall (λ ev, is_terminal ev = false) pre →
  walk_end o t → walk_end o (pre ++ t).
Proof.
  intros Hpre (t0 & Hquiet & Hend). exists (pre ++ t0).
  split; [by apply Forall_app|].
  destruct Hend as [(ev & -> & Hterm & Hres) | (-> & e & -> & He)].
  - left. exists ev. by rewrite app_assoc.
  - right. split; [done|]. exists e. split; [done|].
    intros Hne. destruct (He Hne) as [?|[?|?]]; auto using raised_by_callback_app.
Qed.

Lemma walk_end_call o ev :
  is_terminal ev = true → event_result ev = Some o → walk_end o [ev].
Proof. intros Hterm Hres. exists []. split; [done|]. left. exists ev. auto. Qed.

Lemma walk_end_fail e t :
  Forall (λ ev, is_terminal ev = false) t →
  e = NotFound ∨ e = HTTPError 400 ∨ e = AttributeError
    ∨ raised_by_callback e t →
  walk_end (Raise e) t.
Proof.
  intros Hquiet He. exists t. split; [done|]. right. split; [done|].
  exists e. split; [done|]. intros Hne. destruct He as [?|[?|[?|?]]]; auto. done.
Qed.

(** *** The three steps *)

Lemma resolve_walk method self id w :
  let r := resolve app method self id w in
  Forall (λ ev, is_terminal ev = false) (trace_of r)
  ∧ Forall (λ ev, is_delegation ev = false) (trace_of r)
  ∧ Forall invokes_exposed (trace_of r)
  ∧ length (trace_of r) ≤ 2
  ∧ ∀ e, outcome_of r = Raise e →
         e = NotFound ∨ raised_by_callback e (trace_of r).
Proof.
  unfold_M. cbn beta iota.
  destruct (REST_instantiate app self id w) as [[resource|e0] w1].
  - destruct resource;
      try (cbn; repeat split; [repeat constructor.. | lia | done]).
    destruct (decide (method = "PUT")) as [Hput|Hput].
    + destruct (REST_create app self id w1) as [[resource|e1] w2]; cbn;
        (repeat split; [repeat constructor.. | lia | ]); [done|].
      intros e [= ->]. right.
      by exists [EInstantiate self id (Return VNone)], (ECreate self id (Raise e)).
    + cbn. repeat split; [repeat constructor.. | lia | ].
      intros e [= <-]. by left.
  - cbn. repeat split; [repeat constructor.. | lia | ].
    intros e [= ->]. right. by exists [], (EInstantiate self id (Raise e)).
Qed.

Lemma REST_dispatch_walk method self resource params w :
  let r := REST_dispatch app method self resource params w in
  walk_end (outcome_of r) (trace_of r)
  ∧ Forall (λ ev, is_delegation ev = false) (trace_of r)
  ∧ Forall invokes_exposed (trace_of r)
  ∧ length (trace_of r) ≤ 1.
Proof.
  assert (∀ name,
    let r := dispatch_to app method self name resource params w in
    walk_end (outcome_of r) (trace_of r)
    ∧ Forall (λ ev, is_delegation ev = false) (trace_of r)
    ∧ Forall invokes_exposed (trace_of r)
    ∧ length (trace_of r) ≤ 1) as Hto.
  { intros name.
    destruct (py_getattr app (heap w !!! self) name) as [m|] eqn:Hm.
    - destruct (exposed m) eqn:He.
      + cbn zeta. rewrite (dispatch_to_exposed _ _ _ _ _ _ _ m) by done.
        destruct (call app self name resource [] params w) as [[v|e] w'];
          cbn; (repeat split; [|repeat constructor; done..|lia]).
        * by apply walk_end_call.
        * exists []. split; [done|]. left. eexists. cbn. eauto 10.
      + cbn zeta. rewrite (dispatch_to_unexposed _ _ _ _ _ _ _ m) by done.
        cbn. repeat split; [|repeat constructor..|lia].
        apply walk_end_fail; auto.
    - cbn zeta. rewrite dispatch_to_absent by done.
      cbn. repeat split; [|repeat constructor..|lia].
      apply walk_end_fail; [repeat constructor|auto]. }
  destruct (mapped_name (heap w !!! self) method) as [name|] eqn:Hname.
  - cbn zeta. rewrite (REST_dispatch_mapped _ _ _ name) by done. apply Hto.
  - cbn zeta. rewrite REST_dispatch_unmapped by done.
    cbn. repeat split; [|repeat constructor..|lia].
    apply walk_end_fail; auto.
Qed.

Lemma via_attribute_walk self a resource rest params w :
  let r := via_attribute app self a resource rest params w in
  walk_end (outcome_of r) (trace_of r)
  ∧ Forall (λ ev, is_delegation ev = false) (trace_of r)
  ∧ Forall invokes_exposed (trace_of r)
  ∧ length (trace_of r) ≤ 1.
Proof.
  unfold_M. cbn beta iota.
  destruct (py_getattr app (heap w !!! self) a) as [m|] eqn:Hm; cbn.
  2: { repeat split; [|repeat constructor..|lia]. apply walk_end_fail; auto. }
  destruct (m_bool m) eqn:Hb; cbn.
  2: { repeat split; [|repeat constructor..|lia]. apply walk_end_fail; auto. }
  destruct (m_expose_resource m) as [flag|] eqn:Hflag; cbn.
  2: { repeat split; [|repeat constructor..|lia]. apply walk_end_fail; auto. }
  destruct (truthy flag) eqn:Ht; cbn.
  2: { repeat split; [|repeat constructor..|lia]. apply walk_end_fail; auto. }
  destruct (call app self a resource rest params w) as [o w'] eqn:Hcall; cbn.
  repeat split; [|repeat constructor..|lia].
  - by apply walk_end_call.
  - unfold invokes_exposed, exposed. by rewrite Hb, Hflag, Ht.
Qed.

(** *** The whole walk *)


Lemma default_walk method self vpath params w :
  let r := default app method self vpath params w in
  2 * delegations (trace_of r) ≤ length vpath
  ∧ length (trace_of r) ≤ 2 * length vpath + 3
  ∧ walk_end (outcome_of r) (trace_of r)
  ∧ Forall invokes_exposed (trace_of r).
Proof.
  revert self w. induction vpath as [|id|id a rest IH] using vpath_ind;
    intros self w; cbn zeta.
  - rewrite default_nil. cbn. repeat split; [lia..| |repeat constructor].
    exists [EWarning (MsgVpath []); EWarning MsgParams].
    split; [by repeat constructor|]. left. eexists. eauto.
  - rewrite default_one.
    destruct (resolve_walk method self id w) as (Hq & Hd & Hx & Hlen & Hfail).
    destruct (resolve app method self id w) as [[[resource|e] w1] pre];
      unfold trace_of, outcome_of in *; cbn [fst snd] in *.
    + destruct (REST_dispatch_walk method self resource params w1)
        as (Hend & Hd' & Hx' & Hlen').
      destruct (REST_dispatch app method self resource params w1)
        as [[o w'] t]; unfold trace_of, outcome_of in *;
        cbn [fst snd] in *.
      unfold delegations.
      rewrite count_cons, count_app, (count_quiet _ pre), (count_quiet _ t)
        by done.
      cbn [length is_delegation]. rewrite length_app.
      repeat split; [lia..| |].
      * apply (walk_end_app _ (_ :: pre)); [by constructor|done].
      * constructor; [done|]. by apply Forall_app.
    + unfold delegations. rewrite count_cons, (count_quiet _ pre) by done.
      cbn [length is_delegation].
      repeat split; [lia..| |by constructor].
      apply walk_end_fail; [by constructor|].
      destruct (Hfail e eq_refl) as [->|Hcb]; [auto|].
      do 3 right. by apply (raised_by_callback_app _ [_]).
  - rewrite default_more.
    destruct (resolve_walk method self id w) as (Hq & Hd & Hx & Hlen & Hfail).
    destruct (resolve app method self id w) as [[[resource|e] w1] pre];
      unfold trace_of, outcome_of in *; cbn [fst snd] in *.
    + destruct (REST_children (heap w1 !!! self) !! a) as [c|].
      * specialize (IH c (set_parent c resource w1)). cbn zeta in IH.
        destruct (default app method c rest params _) as [[o w'] t];
          unfold trace_of, outcome_of in *; cbn [fst snd] in *.
        destruct IH as (IHd & IHlen & IHend & IHx).
        unfold delegations in *.
        rewrite count_cons, count_app, count_cons, (count_quiet _ pre) by done.
        cbn [length is_delegation]. rewrite length_app. cbn [length].
        repeat split; [lia..| |].
        -- apply (walk_end_app _
                    (EWarning (MsgVpath (id :: a :: rest))
                     :: pre ++ [ESetParent c resource])) in IHend.
           ++ by rewrite <- app_comm_cons, <- app_assoc in IHend.
           ++ constructor; [done|]. apply Forall_app. by repeat constructor.
        -- constructor; [done|]. apply Forall_app. by repeat constructor.
      * destruct (via_attribute_walk self a resource rest params w1)
          as (Hend & Hd' & Hx' & Hlen').
        destruct (via_attribute app self a resource rest params w1)
          as [[o w'] t]; unfold trace_of, outcome_of in *;
          cbn [fst snd] in *.
        unfold delegations.
        rewrite count_cons, count_app, (count_quiet _ pre), (count_quiet _ t)
          by done.
        cbn [length is_delegation]. rewrite length_app.
        repeat split; [lia..| |].
        -- apply (walk_end_app _ (_ :: pre)); [by constructor|done].
        -- constructor; [done|]. by apply Forall_app.
    + unfold delegations. rewrite count_cons, (count_quiet _ pre) by done.
      cbn [length is_delegation].
      repeat split; [lia..| |by constructor].
      apply walk_end_fail; [by constructor|].
      destruct (Hfail e eq_refl) as [->|Hcb]; [auto|].
      do 3 right. by apply (raised_by_callback_app _ [_]).
Qed.


(** X12. Whatever the path and the verb, every attribute that [default]
    calls is marked resource-exposed. *)
Lemma default_invokes_only_exposed method self vpath params w :
  Forall invokes_exposed (trace_of (default app method self vpath params w)).
Proof. apply default_walk. Qed.

End Walk.

(** ** What [default] writes *)

Section Frame.
Context {A : Type} (app : Application A).
Implicit Types (self c : ref) (w : world A) (params : kwargs)
  (method id a : string) (vpath rest : list string) (t pre : list event)
  (h : gmap ref dispatcher).

Lemma apply_writes_app t1 t2 h :
  apply_writes (t1 ++ t2) h = apply_writes t2 (apply_writes t1 h).
Proof. apply foldl_app. Qed.

Lemma apply_writes_quiet t h :
  Forall (λ ev, is_delegation ev = false) t → apply_writes t h = h.
Proof.
  intros Hq. revert h. induction Hq as [|ev t Hev _ IH]; intros h; [done|].
  cbn. destruct ev; try done; apply IH.
Qed.

Lemma apply_write_config h ev c :
  same_config (apply_write h ev !!! c) (h !!! c).
Proof.
  destruct ev as [| | |c' resource| |]; try done. cbn.
  destruct (decide (c' = c)) as [->|Hne].
  - by rewrite lookup_total_insert_eq.
  - by rewrite lookup_total_insert_ne.
Qed.



Lemma child_of_config h h' s c :
  (∀ r, same_config (h' !!! r) (h !!! r)) → child_of h' s c → child_of h s c.
Proof.
  intros Hcfg [name Hname]. exists name.
  destruct (Hcfg s) as (_ & <- & _). done.
Qed.

Lemma not_delegated_quiet c t :
  Forall (λ ev, is_delegation ev = false) t → ¬ delegated_to c t.
Proof.
  intros Hq [resource Hin]. rewrite Forall_forall in Hq.
  by specialize (Hq _ Hin).
Qed.

Hypothesis Hkeep : callbacks_keep_heap app.

Lemma resolve_heap method self id w :
  heap (world_of (resolve app method self id w)) = heap w.
Proof.
  destruct Hkeep as (Hi & Hc & _). unfold_M. cbn beta iota.
  specialize (Hi self id w).
  destruct (REST_instantiate app self id w) as [[resource|e] w1];
    cbn in Hi; [|done].
  destruct resource; try done.
  destruct (decide (method = "PUT")); [|done].
  specialize (Hc self id w1).
  destruct (REST_create app self id w1) as [o w2]. cbn in Hc |- *. congruence.
Qed.

Lemma via_attribute_heap self a resource rest params w :
  heap (world_of (via_attribute app self a resource rest params w)) = heap w.
Proof.
  destruct Hkeep as (_ & _ & Hc). unfold_M. cbn beta iota.
  destruct (py_getattr app (heap w !!! self) a) as [m|]; [|done].
  destruct (m_bool m); [|done].
  destruct (m_expose_resource m) as [flag|]; [|done].
  destruct (truthy flag); [|done].
  specialize (Hc self a resource rest params w).
  by destruct (call app self a resource rest params w) as [o w'].
Qed.

Lemma REST_dispatch_heap method self resource params w :
  heap (world_of (REST_dispatch app method self resource params w)) = heap w.
Proof.
  destruct Hkeep as (_ & _ & Hc).
  destruct (mapped_name (heap w !!! self) method) as [name|] eqn:Hname.
  2: { by rewrite REST_dispatch_unmapped. }
  rewrite (REST_dispatch_mapped _ _ _ name) by done.
  destruct (py_getattr app (heap w !!! self) name) as [m|] eqn:Hm.
  2: { by rewrite dispatch_to_absent. }
  destruct (exposed m) eqn:He.
  2: { by rewrite (dispatch_to_unexposed _ _ _ _ _ _ _ m). }
  rewrite (dispatch_to_exposed _ _ _ _ _ _ _ m) by done.
  specialize (Hc self name resource [] params w).
  by destruct (call app self name resource [] params w) as [o w'].
Qed.

Lemma default_heap method self vpath params w :
  let r := default app method self vpath params w in
  heap (world_of r) = apply_writes (trace_of r) (heap w)
  ∧ ∀ c, delegated_to c (trace_of r) → tc (child_of (heap w)) self c.
Proof.
  revert self w. induction vpath as [|id|id a rest IH] using vpath_ind;
    intros self w; cbn zeta.
  - rewrite default_nil. split; [done|].
    intros c Hc. apply not_delegated_quiet in Hc; [done|].
    by repeat constructor.
  - rewrite default_one.
    pose proof (resolve_heap method self id w) as Hh.
    destruct (resolve_walk app method self id w) as (_ & Hd & _).
    destruct (resolve app method self id w) as [[[resource|e] w1] pre];
      unfold trace_of, world_of in *; cbn [fst snd] in *.
    + pose proof (REST_dispatch_heap method self resource params w1) as Hh'.
      destruct (REST_dispatch_walk app method self resource params w1)
        as (_ & Hd' & _).
      destruct (REST_dispatch app method self resource params w1)
        as [[o w'] t]; unfold trace_of, world_of in *; cbn [fst snd] in *.
      assert (Forall (λ ev, is_delegation ev = false)
                (EWarning (MsgVpath [id]) :: pre ++ t)) as Hq.
      { constructor; [done|]. by apply Forall_app. }
      split.
      * rewrite apply_writes_quiet by done. congruence.
      * intros c Hc. by apply (not_delegated_quiet c) in Hq.
    + assert (Forall (λ ev, is_delegation ev = false)
                (EWarning (MsgVpath [id]) :: pre)) as Hq by by constructor.
      split.
      * by rewrite apply_writes_quiet.
      * intros c Hc. by apply (not_delegated_quiet c) in Hq.
  - rewrite default_more.
    pose proof (resolve_heap method self id w) as Hh.
    destruct (resolve_walk app method self id w) as (_ & Hd & _).
    destruct (resolve app method self id w) as [[[resource|e] w1] pre];
      unfold trace_of, world_of in *; cbn [fst snd] in *.
    + destruct (REST_children (heap w1 !!! self) !! a) as [c|] eqn:Hchild.
      * specialize (IH c (set_parent c resource w1)). cbn zeta in IH.
        destruct (default app method c rest params _) as [[o w'] t];
          unfold trace_of, world_of in *; cbn [fst snd] in *.
        destruct IH as (IHh & IHc).
        assert (child_of (heap w) self c) as Hsc.
        { exists a. by rewrite <- Hh. }
        split.
        -- rewrite IHh.
           change (EWarning (MsgVpath (id :: a :: rest))
                   :: pre ++ ESetParent c resource :: t)
             with ([EWarning (MsgVpath (id :: a :: rest))]
                   ++ pre ++ [ESetParent c resource] ++ t).
           rewrite !apply_writes_app, (apply_writes_quiet pre) by done.
           cbn. by rewrite Hh.
        -- intros c' [res Hin].
           apply elem_of_cons in Hin as [Hin|Hin]; [done|].
           apply elem_of_app in Hin as [Hin|Hin].
           { rewrite Forall_forall in Hd. by specialize (Hd _ Hin). }
           apply elem_of_cons in Hin as [Hin|Hin].
           { injection Hin as -> _. by apply tc_once. }
           eapply tc_l; [done|].
           eapply (tc_congruence (λ r, r)); [|apply IHc; by exists res].
           intros x y. apply child_of_config. intros r. cbn. rewrite Hh.
           apply (apply_write_config (heap w) (ESetParent c resource)).
      * pose proof (via_attribute_heap self a resource rest params w1) as Hh'.
        destruct (via_attribute_walk app self a resource rest params w1)
          as (_ & Hd' & _).
        destruct (via_attribute app self a resource rest params w1)
          as [[o w'] t]; unfold trace_of, world_of in *; cbn [fst snd] in *.
        assert (Forall (λ ev, is_delegation ev = false)
                  (EWarning (MsgVpath (id :: a :: rest)) :: pre ++ t)) as Hq.
        { constructor; [done|]. by apply Forall_app. }
        split.
        -- rewrite apply_writes_quiet by done. congruence.
        -- intros c Hc. by apply (not_delegated_quiet c) in Hq.
    + assert (Forall (λ ev, is_delegation ev = false)
                (EWarning (MsgVpath (id :: a :: rest)) :: pre)) as Hq
        by by constructor.
      split.
      * by rewrite apply_writes_quiet.
      * intros c Hc. by apply (not_delegated_quiet c) in Hq.
Qed.


End Frame.

(** ** Case by case *)

Section Cases.
Context {A : Type} (app : Application A).
Implicit Types (self c : ref) (w : world A) (m : member) (params : kwargs)
  (method id a : string) (vpath rest : list string) (t pre : list event).

Lemma resolve_raises method self id w e w1 :
  REST_instantiate app self id w = (Raise e, w1) →
  resolve app method self id w
  = (Raise e, w1, [EInstantiate self id (Raise e)]).
Proof. intros Hinst. unfold_M. by rewrite Hinst. Qed.

Lemma resolve_found method self id w resource w1 :
  REST_instantiate app self id w = (Return resource, w1) →
  resource ≠ VNone →
  resolve app method self id w
  = (Return resource, w1, [EInstantiate self id (Return resource)]).
Proof. intros Hinst Hres. unfold_M. rewrite Hinst. by destruct resource. Qed.

Lemma resolve_missing method self id w w1 :
  REST_instantiate app self id w = (Return VNone, w1) →
  method ≠ "PUT" →
  resolve app method self id w
  = (Raise NotFound, w1, [EInstantiate self id (Return VNone)]).
Proof.
  intros Hinst Hverb. unfold_M. rewrite Hinst. cbn beta iota.
  by rewrite decide_False.
Qed.

Lemma resolve_creates self id w w1 res w2 :
  REST_instantiate app self id w = (Return VNone, w1) →
  REST_create app self id w1 = (res, w2) →
  resolve app "PUT" self id w
  = (res, w2, [EInstantiate self id (Return VNone); ECreate self id res]).
Proof.
  intros Hinst Hcreate. unfold_M. rewrite Hinst. cbn beta iota.
  rewrite decide_True by done. by rewrite Hcreate.
Qed.

Lemma resolve_cases method self id w :
  (∃ e w1,
     REST_instantiate app self id w = (Raise e, w1)
     ∧ resolve app method self id w
       = (Raise e, w1, [EInstantiate self id (Raise e)]))
  ∨ (∃ resource w1,
       REST_instantiate app self id w = (Return resource, w1)
       ∧ resource ≠ VNone
       ∧ resolve app method self id w
         = (Return resource, w1, [EInstantiate self id (Return resource)]))
  ∨ (∃ w1,
       REST_instantiate app self id w = (Return VNone, w1)
       ∧ method ≠ "PUT"
       ∧ resolve app method self id w
         = (Raise NotFound, w1, [EInstantiate self id (Return VNone)]))
  ∨ (∃ w1 res w2,
       REST_instantiate app self id w = (Return VNone, w1)
       ∧ method = "PUT"
       ∧ REST_create app self id w1 = (res, w2)
       ∧ resolve app method self id w
         = (res, w2,
            [EInstantiate self id (Return VNone); ECreate self id res])).
Proof.
  destruct (REST_instantiate app self id w) as [[resource|e] w1] eqn:Hinst.
  - assert (resource = VNone ∨ resource ≠ VNone) as [->|Hres]
      by (destruct resource; (by left) || (by right)).
    + destruct (decide (method = "PUT")) as [->|Hverb].
      * destruct (REST_create app self id w1) as [res w2] eqn:Hcreate.
        do 3 right. exists w1, res, w2. eauto using resolve_creates.
      * do 2 right. left. exists w1. eauto using resolve_missing.
    + right. left. exists resource, w1. eauto using resolve_found.
  - left. exists e, w1. eauto using resolve_raises.
Qed.

Lemma via_attribute_exposed self a resource rest params w m :
  py_getattr app (heap w !!! self) a = Some m →
  exposed m = true →
  via_attribute app self a resource rest params w
  = let '(res, w') := call app self a resource rest params w in
    (res, w', [EInvoke self a m resource rest params res]).
Proof.
  intros Hm (Hb & flag & Hflag & Ht)%exposed_inv. unfold_M.
  rewrite Hm, Hb, Hflag, Ht.
  by destruct (call _ _ _ _ _ _ _) as [res w'].
Qed.

Lemma via_attribute_absent self a resource rest params w :
  py_getattr app (heap w !!! self) a = None →
  via_attribute app self a resource rest params w = (Raise NotFound, w, []).
Proof. intros Hm. unfold_M. by rewrite Hm. Qed.

Lemma via_attribute_unexposed self a resource rest params w m :
  py_getattr app (heap w !!! self) a = Some m →
  exposed m = false →
  ∃ e, via_attribute app self a resource rest params w = (Raise e, w, []).
Proof.
  intros Hm He. unfold_M. rewrite Hm. unfold exposed in He.
  destruct (m_bool m); [|by eexists].
  destruct (m_expose_resource m) as [flag|]; [|by eexists].
  cbn in He. rewrite He. by eexists.
Qed.

(** What [via_attribute] can do: call the attribute, or fail at once. *)
Lemma via_attribute_cases self a resource rest params w :
  (∃ e, via_attribute app self a resource rest params w = (Raise e, w, []))
  ∨ (∃ m res w',
       py_getattr app (heap w !!! self) a = Some m
       ∧ exposed m = true
       ∧ call app self a resource rest params w = (res, w')
       ∧ via_attribute app self a resource rest params w
         = (res, w', [EInvoke self a m resource rest params res])).
Proof.
  destruct (py_getattr app (heap w !!! self) a) as [m|] eqn:Hm.
  - destruct (exposed m) eqn:He.
    + right. destruct (call app self a resource rest params w)
        as [res w'] eqn:Hcall.
      exists m, res, w'. split_and!; try done.
      rewrite (via_attribute_exposed _ _ _ _ _ _ m) by done. by rewrite Hcall.
    + left. by eapply via_attribute_unexposed.
  - left. exists NotFound. by apply via_attribute_absent.
Qed.

(** What [REST_dispatch] can do: fail at once, with or without a warning,
    or call the attribute the verb is mapped to. *)
Lemma REST_dispatch_cases method self resource params w :
  REST_dispatch app method self resource params w = (Raise NotFound, w, [])
  ∨ REST_dispatch app method self resource params w
    = (Raise (HTTPError 400), w, [EWarning (MsgUnsupported method resource)])
  ∨ (∃ name m res w',
       mapped_name (heap w !!! self) method = Some name
       ∧ py_getattr app (heap w !!! self) name = Some m
       ∧ exposed m = true
       ∧ call app self name resource [] params w = (res, w')
       ∧ REST_dispatch app method self resource params w
         = (match res with Return v => Return v | Raise _ => Raise NotFound end,
            w', [EInvoke self name m resource [] params res])).
Proof.
  destruct (mapped_name (heap w !!! self) method) as [name|] eqn:Hname.
  2: { left. by apply REST_dispatch_unmapped. }
  rewrite (REST_dispatch_mapped _ _ _ name) by done.
  destruct (py_getattr app (heap w !!! self) name) as [m|] eqn:Hm.
  2: { right. left. by apply dispatch_to_absent. }
  destruct (exposed m) eqn:He.
  2: { left. by apply (dispatch_to_unexposed _ _ _ _ _ _ _ m). }
  do 2 right. destruct (call app self name resource [] params w)
    as [res w'] eqn:Hcall.
  exists name, m, res, w'. split_and!; try done.
  rewrite (dispatch_to_exposed _ _ _ _ _ _ _ m) by done. by rewrite Hcall.
Qed.

(** Induction along a run of [default]: the empty path, a first segment
    that does not become a resource, verb dispatch on the last segment, an
    attribute called on the second segment, delegation to a child. *)
Lemma default_run_ind method params
    (P : ref → list string → world A →
         outcome value * world A * list event → Prop) :
  (∀ self w,
     P self [] w
       (builtin_list params, w,
        [EWarning (MsgVpath []); EWarning MsgParams;
         EList params (builtin_list params)])) →
  (∀ self id rest w e w1 pre,
     resolve app method self id w = (Raise e, w1, pre) →
     P self (id :: rest) w
       (Raise e, w1, EWarning (MsgVpath (id :: rest)) :: pre)) →
  (∀ self id w resource w1 pre res w' t,
     resolve app method self id w = (Return resource, w1, pre) →
     REST_dispatch app method self resource params w1 = (res, w', t) →
     P self [id] w (res, w', EWarning (MsgVpath [id]) :: pre ++ t)) →
  (∀ self id a rest w resource w1 pre res w' t,
     resolve app method self id w = (Return resource, w1, pre) →
     REST_children (heap w1 !!! self) !! a = None →
     via_attribute app self a resource rest params w1 = (res, w', t) →
     P self (id :: a :: rest) w
       (res, w', EWarning (MsgVpath (id :: a :: rest)) :: pre ++ t)) →
  (∀ self id a rest w resource w1 pre c res w' t,
     resolve app method self id w = (Return resource, w1, pre) →
     REST_children (heap w1 !!! self) !! a = Some c →
     default app method c rest params (set_parent c resource w1)
     = (res, w', t) →
     P c rest (set_parent c resource w1) (res, w', t) →
     P self (id :: a :: rest) w
       (res, w',
        EWarning (MsgVpath (id :: a :: rest))
        :: pre ++ ESetParent c resource :: t)) →
  ∀ self vpath w, P self vpath w (default app method self vpath params w).
Proof.
  intros Hnil Hfail Hverb Hattr Hchild self vpath. revert self.
  induction vpath as [|id|id a rest IH] using vpath_ind; intros self w.
  - rewrite default_nil. apply Hnil.
  - rewrite default_one.
    destruct (resolve app method self id w) as [[[resource|e] w1] pre] eqn:Hres.
    + destruct (REST_dispatch app method self resource params w1)
        as [[res w'] t] eqn:Hd. by eapply Hverb.
    + by apply Hfail.
  - rewrite default_more.
    destruct (resolve app method self id w) as [[[resource|e] w1] pre] eqn:Hres.
    + destruct (REST_children (heap w1 !!! self) !! a) as [c|] eqn:Hc.
      * destruct (default app method c rest params (set_parent c resource w1))
          as [[res w'] t] eqn:Hd.
        eapply Hchild; try done. rewrite <- Hd. apply IH.
      * destruct (via_attribute app self a resource rest params w1)
          as [[res w'] t] eqn:Hv. by eapply Hattr.
    + by apply Hfail.
Qed.

End Cases.

(** ** Further properties of the walk *)

Section Routes.
Context {A : Type} (app : Application A).
Implicit Types (self c : ref) (w : world A) (m : member) (params : kwargs)
  (method id a : string) (vpath rest : list string) (t pre : list event).

(** X1. A second segment that is no key of [REST_children] but names a
    resource-exposed attribute: the attribute is called as
    [method(resource, *rest, **params)], and the outcome of [default] is the
    outcome of that call, an exception included: on this route nothing is
    caught, whatever the verb. *)
Theorem default_calls_segment_method
    method self id a rest params w resource w1 m res w2 :
  REST_instantiate app self id w = (Return resource, w1) →
  resource ≠ VNone →
  REST_children (heap w1 !!! self) !! a = None →
  py_getattr app (heap w1 !!! self) a = Some m →
  exposed m = true →
  call app self a resource rest params w1 = (res, w2) →
  default app method self (id :: a :: rest) params w
  = (res, w2,
     [EWarning (MsgVpath (id :: a :: rest));
      EInstantiate self id (Return resource);
      EInvoke self a m resource rest params res]).
Proof.
  intros Hinst Hres Hchild Hm He Hcall.
  rewrite default_more, (resolve_found _ _ _ _ _ resource w1) by done.
  rewrite Hchild, (via_attribute_exposed _ _ _ _ _ _ _ m) by done.
  by rewrite Hcall.
Qed.

(** X2. A second segment that is no key of [REST_children] and names no
    attribute, or an attribute that is false, or one whose
    [expose_resource] is false: NotFound, and nothing is called. *)
Theorem default_segment_not_found method self id a rest params w resource w1 :
  REST_instantiate app self id w = (Return resource, w1) →
  resource ≠ VNone →
  REST_children (heap w1 !!! self) !! a = None →
  py_getattr app (heap w1 !!! self) a = None
  ∨ (∃ m, py_getattr app (heap w1 !!! self) a = Some m
          ∧ (m_bool m = false
             ∨ ∃ flag, m_expose_resource m = Some flag ∧ truthy flag = false)) →
  default app method self (id :: a :: rest) params w
  = (Raise NotFound, w1,
     [EWarning (MsgVpath (id :: a :: rest));
      EInstantiate self id (Return resource)]).
Proof.
  intros Hinst Hres Hchild Hattr.
  rewrite default_more, (resolve_found _ _ _ _ _ resource w1) by done.
  rewrite Hchild.
  assert (via_attribute app self a resource rest params w1
          = (Raise NotFound, w1, [])) as ->; [|done].
  destruct Hattr as [Hm | (m & Hm & [Hb | (flag & Hflag & Ht)])].
  - by apply via_attribute_absent.
  - unfold_M. by rewrite Hm, Hb.
  - unfold_M. rewrite Hm, Hflag, Ht. by destruct (m_bool m).
Qed.

Lemma default_resolve_fails method self id rest params w e w1 pre :
  resolve app method self id w = (Raise e, w1, pre) →
  default app method self (id :: rest) params w
  = (Raise e, w1, EWarning (MsgVpath (id :: rest)) :: pre).
Proof.
  intros Hres. destruct rest as [|a rest].
  - by rewrite default_one, Hres.
  - by rewrite default_more, Hres.
Qed.

(** X3. What [REST_instantiate] raises comes out of [default] as it is,
    on any path that starts with that id, under any verb; nothing else is
    called, [REST_create] neither. *)
Theorem default_instantiate_failure method self id rest params w e w1 :
  REST_instantiate app self id w = (Raise e, w1) →
  default app method self (id :: rest) params w
  = (Raise e, w1,
     [EWarning (MsgVpath (id :: rest)); EInstantiate self id (Raise e)]).
Proof.
  intros Hinst. apply default_resolve_fails. by apply resolve_raises.
Qed.

(** X4. Under PUT, what [REST_create] raises for an id that did not
    resolve comes out of [default] as it is, on any path that starts with
    that id. *)
Theorem default_create_failure self id rest params w w1 e w2 :
  REST_instantiate app self id w = (Return VNone, w1) →
  REST_create app self id w1 = (Raise e, w2) →
  default app "PUT" self (id :: rest) params w
  = (Raise e, w2,
     [EWarning (MsgVpath (id :: rest));
      EInstantiate self id (Return VNone);
      ECreate self id (Raise e)]).
Proof.
  intros Hinst Hcreate. apply default_resolve_fails.
  by apply (resolve_creates _ _ _ _ w1).
Qed.

(** X5. The hooks of the base class. A controller that does not override
    [REST_instantiate] answers every non-empty path with NotFound and
    leaves the world as it is; one that does not override [REST_create]
    answers an id that does not resolve with NotFound under PUT as under
    any other verb. *)
Theorem default_with_base_hooks method self id rest params w :
  ((∀ id' w', REST_instantiate app self id' w'
              = REST_instantiate_base self id' w') →
   outcome_of (default app method self (id :: rest) params w) = Raise NotFound
   ∧ world_of (default app method self (id :: rest) params w) = w)
  ∧ ((∀ id' w', REST_create app self id' w' = REST_create_base self id' w') →
     ∀ w1, REST_instantiate app self id w = (Return VNone, w1) →
     outcome_of (default app method self (id :: rest) params w) = Raise NotFound
     ∧ world_of (default app method self (id :: rest) params w) = w1).
Proof.
  split.
  - intros Hbase.
    by rewrite (default_resolve_fails _ _ _ _ _ _ NotFound w
                  [EInstantiate self id (Raise NotFound)])
      by (apply resolve_raises, Hbase).
  - intros Hbase w1 Hinst.
    destruct (decide (method = "PUT")) as [->|Hverb].
    + by rewrite (default_resolve_fails _ _ _ _ _ _ NotFound w1
                    [EInstantiate self id (Return VNone);
                     ECreate self id (Raise NotFound)])
        by (apply (resolve_creates _ _ _ _ w1); [done | apply Hbase]).
    + by rewrite (default_resolve_fails _ _ _ _ _ _ NotFound w1
                    [EInstantiate self id (Return VNone)])
        by (by apply resolve_missing).
Qed.

(** X13. Under PUT a first segment that does not resolve is created also
    when the path goes on: the created resource becomes the parent of the
    child that the second segment names, and the child goes on with the
    rest, still under PUT. *)
Theorem default_PUT_creates_then_delegates
    self id a rest params w w1 resource w2 c :
  REST_instantiate app self id w = (Return VNone, w1) →
  REST_create app self id w1 = (Return resource, w2) →
  REST_children (heap w2 !!! self) !! a = Some c →
  default app "PUT" self (id :: a :: rest) params w
  = let '(res, w', t) :=
      default app "PUT" c rest params (set_parent c resource w2) in
    (res, w',
     EWarning (MsgVpath (id :: a :: rest))
     :: EInstantiate self id (Return VNone)
     :: ECreate self id (Return resource)
     :: ESetParent c resource :: t).
Proof.
  intros Hinst Hcreate Hchild.
  rewrite default_more,
    (resolve_creates _ _ _ _ w1 (Return resource) w2) by done.
  by rewrite Hchild.
Qed.



(** X8. Verb dispatch calls nothing but the attribute the verb is mapped
    to, marked resource-exposed, with the resource and the parameters and
    no positional argument. *)
Theorem REST_dispatch_calls_mapped_only method self resource params w ev :
  ev ∈ trace_of (REST_dispatch app method self resource params w) →
  is_invoke ev = true →
  ∃ name m res,
    mapped_name (heap w !!! self) method = Some name
    ∧ py_getattr app (heap w !!! self) name = Some m
    ∧ exposed m = true
    ∧ ev = EInvoke self name m resource [] params res.
Proof.
  destruct (REST_dispatch_cases app method self resource params w)
    as [-> | [-> | (name & m & res & w' & Hname & Hm & He & _ & ->)]];
    unfold trace_of; cbn [snd].
  - by intros ?%elem_of_nil.
  - intros ->%list_elem_of_singleton. discriminate.
  - intros ->%list_elem_of_singleton _. eauto 10.
Qed.

(** X9. A verb mapped to an attribute that is there but not marked
    resource-exposed (false itself, without [expose_resource], or with a
    false one): NotFound, nothing called, nothing logged, the world as it
    was. *)
Theorem REST_dispatch_unexposed_not_found method self name resource params w m :
  mapped_name (heap w !!! self) method = Some name →
  py_getattr app (heap w !!! self) name = Some m →
  exposed m = false →
  REST_dispatch app method self resource params w = (Raise NotFound, w, []).
Proof.
  intros Hname Hm He. rewrite (REST_dispatch_mapped _ _ _ name) by done.
  by apply (dispatch_to_unexposed _ _ _ _ _ _ _ m).
Qed.




End Routes.

(** ** Further properties of every trace *)

Section Traces.
Context {A : Type} (app : Application A).
Implicit Types (self c : ref) (w : world A) (m : member) (params : kwargs)
  (method id a : string) (vpath rest : list string) (t pre : list event)
  (h : gmap ref dispatcher).

Lemma resolved_ids_app t1 t2 :
  resolved_ids (t1 ++ t2) = resolved_ids t1 ++ resolved_ids t2.
Proof.
  induction t1 as [|ev t1 IH]; [done|].
  destruct ev; cbn; by rewrite ?IH.
Qed.

Lemma resolve_trace method self id w :
  resolved_ids (trace_of (resolve app method self id w)) = [id]
  ∧ (method ≠ "PUT" →
     Forall (λ ev, is_create ev = false)
       (trace_of (resolve app method self id w))).
Proof.
  destruct (resolve_cases app method self id w)
    as [(e & w1 & _ & ->) | [(resource & w1 & _ & _ & ->)
       | [(w1 & _ & _ & ->) | (w1 & res & w2 & _ & Hput & _ & ->)]]];
    unfold trace_of; cbn; (split; [done|]); intros Hverb;
    by repeat constructor.
Qed.

Lemma REST_dispatch_trace method self resource params w :
  resolved_ids (trace_of (REST_dispatch app method self resource params w)) = []
  ∧ Forall (λ ev, is_create ev = false)
      (trace_of (REST_dispatch app method self resource params w)).
Proof.
  destruct (REST_dispatch_cases app method self resource params w)
    as [-> | [-> | (name & m & res & w' & _ & _ & _ & _ & ->)]];
    unfold trace_of; cbn; by repeat constructor.
Qed.

Lemma via_attribute_trace self a resource rest params w :
  resolved_ids (trace_of (via_attribute app self a resource rest params w)) = []
  ∧ Forall (λ ev, is_create ev = false)
      (trace_of (via_attribute app self a resource rest params w)).
Proof.
  destruct (via_attribute_cases app self a resource rest params w)
    as [[e ->] | (m & res & w' & _ & _ & _ & ->)];
    unfold trace_of; cbn; by repeat constructor.
Qed.

(** X6. Under a verb other than PUT, [REST_create] is not called, on any
    path and by no dispatcher along it. *)
Theorem default_creates_only_under_PUT method self vpath params w :
  method ≠ "PUT" →
  Forall (λ ev, is_create ev = false)
    (trace_of (default app method self vpath params w)).
Proof.
  intros Hverb. revert self vpath w.
  apply (default_run_ind app method params
           (λ _ _ _ r, Forall (λ ev, is_create ev = false) (trace_of r)));
    unfold trace_of; cbn [snd].
  - intros. by repeat constructor.
  - intros self id rest w e w1 pre Hres.
    destruct (resolve_trace method self id w) as [_ Hpre].
    rewrite Hres in Hpre. constructor; [done|]. by apply Hpre.
  - intros self id w resource w1 pre res w' t Hres Hd.
    destruct (resolve_trace method self id w) as [_ Hpre].
    destruct (REST_dispatch_trace method self resource params w1) as [_ Ht].
    rewrite Hres in Hpre. rewrite Hd in Ht.
    constructor; [done|]. apply Forall_app. split; [by apply Hpre | done].
  - intros self id a rest w resource w1 pre res w' t Hres _ Hv.
    destruct (resolve_trace method self id w) as [_ Hpre].
    destruct (via_attribute_trace self a resource rest params w1) as [_ Ht].
    rewrite Hres in Hpre. rewrite Hv in Ht.
    constructor; [done|]. apply Forall_app. split; [by apply Hpre | done].
  - intros self id a rest w resource w1 pre c res w' t Hres _ _ IH.
    destruct (resolve_trace method self id w) as [_ Hpre].
    rewrite Hres in Hpre.
    constructor; [done|]. apply Forall_app. split; [by apply Hpre |].
    by constructor.
Qed.

(** X11. The ids handed to [REST_instantiate] are the segments of the path
    at the even positions, from the first on and in their order, up to
    where the walk stops; a segment at an odd position is never resolved. *)
Theorem default_resolves_even_segments method self vpath params w :
  resolved_ids (trace_of (default app method self vpath params w))
  `prefix_of` even_segments vpath.
Proof.
  revert self vpath w.
  apply (default_run_ind app method params
           (λ _ vpath _ r,
              resolved_ids (trace_of r) `prefix_of` even_segments vpath));
    unfold trace_of; cbn [snd].
  - intros. by apply prefix_nil.
  - intros self id rest w e w1 pre Hres.
    destruct (resolve_trace method self id w) as [Hpre _].
    rewrite Hres in Hpre. cbn in Hpre |- *. rewrite Hpre.
    apply prefix_cons, prefix_nil.
  - intros self id w resource w1 pre res w' t Hres Hd.
    destruct (resolve_trace method self id w) as [Hpre _].
    destruct (REST_dispatch_trace method self resource params w1) as [Ht _].
    rewrite Hres in Hpre. rewrite Hd in Ht. cbn in Hpre, Ht |- *.
    by rewrite resolved_ids_app, Hpre, Ht.
  - intros self id a rest w resource w1 pre res w' t Hres _ Hv.
    destruct (resolve_trace method self id w) as [Hpre _].
    destruct (via_attribute_trace self a resource rest params w1) as [Ht _].
    rewrite Hres in Hpre. rewrite Hv in Ht. cbn in Hpre, Ht |- *.
    rewrite resolved_ids_app, Hpre, Ht. apply prefix_cons, prefix_nil.
  - intros self id a rest w resource w1 pre c res w' t Hres _ _ IH.
    destruct (resolve_trace method self id w) as [Hpre _].
    rewrite Hres in Hpre. cbn in Hpre |- *.
    rewrite resolved_ids_app, Hpre. cbn. by apply prefix_cons.
Qed.

Lemma apply_writes_last_parent t h c :
  parent (apply_writes t h !!! c)
  = match last_parent c t with
    | Some resource => Some resource
    | None => parent (h !!! c)
    end.
Proof.
  revert h. induction t as [|ev t IH]; intros h; [done|].
  change (apply_writes (ev :: t) h) with (apply_writes t (apply_write h ev)).
  rewrite IH. cbn [last_parent].
  destruct (last_parent c t) as [resource|]; [done|].
  destruct ev as [| | |c' resource| |]; try done. cbn [apply_write].
  destruct (decide (c' = c)) as [->|Hne].
  - by rewrite lookup_total_insert_eq.
  - by rewrite lookup_total_insert_ne.
Qed.

(** X10. The parent link outlives the request. With call-backs that leave
    the dispatcher objects alone, a dispatcher's [parent] after [default]
    is the resource of the last delegation to it, and its old [parent] if
    there was none: [default] never clears the field. *)
Theorem default_leaves_last_parent method self vpath params w c :
  callbacks_keep_heap app →
  parent (heap (world_of (default app method self vpath params w)) !!! c)
  = match last_parent c (trace_of (default app method self vpath params w)) with
    | Some resource => Some resource
    | None => parent (heap w !!! c)
    end.
Proof.
  intros Hkeep.
  destruct (default_heap app Hkeep method self vpath params w) as [-> _].
  apply apply_writes_last_parent.
Qed.

Lemma resolve_pure method self id w :
  callbacks_pure app → world_of (resolve app method self id w) = w.
Proof.
  intros (Hi & Hc & _).
  destruct (resolve_cases app method self id w)
    as [(e & w1 & Hinst & ->) | [(resource & w1 & Hinst & _ & ->)
       | [(w1 & Hinst & _ & ->) | (w1 & res & w2 & Hinst & _ & Hcreate & ->)]]];
    unfold world_of; cbn;
    specialize (Hi self id w); rewrite Hinst in Hi; cbn in Hi; try done.
  specialize (Hc self id w1). rewrite Hcreate in Hc. cbn in Hc. congruence.
Qed.

Lemma REST_dispatch_pure method self resource params w :
  callbacks_pure app →
  world_of (REST_dispatch app method self resource params w) = w.
Proof.
  intros (_ & _ & Hc).
  destruct (REST_dispatch_cases app method self resource params w)
    as [-> | [-> | (name & m & res & w' & _ & _ & _ & Hcall & ->)]];
    try done.
  specialize (Hc self name resource [] params w). by rewrite Hcall in Hc.
Qed.

Lemma via_attribute_pure self a resource rest params w :
  callbacks_pure app →
  world_of (via_attribute app self a resource rest params w) = w.
Proof.
  intros (_ & _ & Hc).
  destruct (via_attribute_cases app self a resource rest params w)
    as [[e ->] | (m & res & w' & _ & _ & Hcall & ->)]; [done|].
  specialize (Hc self a resource rest params w). by rewrite Hcall in Hc.
Qed.

(** X14. With call-backs that only read, [default] leaves the application
    state as it was, and on a walk without delegation the whole world: the
    same request again meets the same world, and so has the same
    outcome. *)
Theorem default_pure_callbacks method self vpath params w :
  callbacks_pure app →
  app_state (world_of (default app method self vpath params w)) = app_state w
  ∧ (delegations (trace_of (default app method self vpath params w)) = 0 →
     world_of (default app method self vpath params w) = w
     ∧ default app method self vpath params
         (world_of (default app method self vpath params w))
       = default app method self vpath params w).
Proof.
  intros Hpure.
  cut (app_state (world_of (default app method self vpath params w))
       = app_state w
       ∧ (delegations (trace_of (default app method self vpath params w)) = 0 →
          world_of (default app method self vpath params w) = w)).
  { intros [Happ Hworld]. split; [done|]. intros Hnone.
    split; [by apply Hworld|]. by rewrite (Hworld Hnone). }
  revert self vpath w.
  apply (default_run_ind app method params
           (λ _ _ w r,
              app_state (world_of r) = app_state w
              ∧ (delegations (trace_of r) = 0 → world_of r = w)));
    unfold trace_of, world_of; cbn [fst snd].
  - done.
  - intros self id rest w e w1 pre Hres.
    pose proof (resolve_pure method self id w Hpure) as Hw.
    rewrite Hres in Hw. unfold world_of in Hw. cbn in Hw. by subst.
  - intros self id w resource w1 pre res w' t Hres Hd.
    pose proof (resolve_pure method self id w Hpure) as Hw.
    pose proof (REST_dispatch_pure method self resource params w1 Hpure) as Hw'.
    rewrite Hres in Hw. rewrite Hd in Hw'. unfold world_of in Hw, Hw'.
    cbn in Hw, Hw'. by subst.
  - intros self id a rest w resource w1 pre res w' t Hres _ Hv.
    pose proof (resolve_pure method self id w Hpure) as Hw.
    pose proof (via_attribute_pure self a resource rest params w1 Hpure) as Hw'.
    rewrite Hres in Hw. rewrite Hv in Hw'. unfold world_of in Hw, Hw'.
    cbn in Hw, Hw'. by subst.
  - intros self id a rest w resource w1 pre c res w' t Hres _ _ [IH _].
    pose proof (resolve_pure method self id w Hpure) as Hw.
    rewrite Hres in Hw. unfold world_of in Hw. cbn in Hw. subst w1.
    split; [done|]. unfold delegations.
    rewrite count_cons, count_app, count_cons. cbn [is_delegation]. lia.
Qed.

End Traces.

(** ** The site of the documentation, request by request *)

Import Site.

Ltac split_all := repeat match goal with |- _ ∧ _ => split end.
Ltac compute_it := vm_compute; reflexivity.

(** No hook or handler of the site assigns to a dispatcher. *)
Lemma site_keeps_heap : callbacks_keep_heap site.
Proof.
  unfold callbacks_keep_heap. split_all.
  - intros self id w. cbn. unfold instantiate. by repeat case_match.
  - done.
  - intros self name resource args params w. cbn. unfold handler.
    by repeat case_match.
Qed.




(** [GET /user/joe]: joe does not exist. *)
Lemma default_unresolved_not_found_witness :
  default site "GET" user_controller ["joe"] [] start
  = (Raise NotFound, start,
     [EWarning (MsgVpath ["joe"]);
      EInstantiate user_controller "joe" (Return VNone)]).
Proof.
  apply (default_unresolved_not_found site "GET" user_controller "joe" []
           start start); [discriminate | compute_it].
Defined.

(** [GET /user/bob/posts/my-first-post]: the post controller gets bob as
    its parent and goes on with [my-first-post]. The user controller has a
    resource-exposed attribute [posts] too; it is not called. *)
Lemma default_delegates_to_child_witness :
  parent (heap (set_parent post_controller (VObj 0) start) !!! post_controller)
  = Some (VObj 0)
  ∧ default site "GET" user_controller ["bob"; "posts"; "my-first-post"] [] start
    = let '(o, w', t) :=
        default site "GET" post_controller ["my-first-post"] []
          (set_parent post_controller (VObj 0) start) in
      (o, w',
       EWarning (MsgVpath ["bob"; "posts"; "my-first-post"])
       :: EInstantiate user_controller "bob" (Return (VObj 0))
       :: ESetParent post_controller (VObj 0) :: t).
Proof.
  apply (default_delegates_to_child site "GET" user_controller "bob" "posts"
           ["my-first-post"] [] start (VObj 0) start post_controller);
    [compute_it | discriminate | compute_it].
Defined.

Example GET_first_post_of_bob :
  py_getattr site (heap start !!! user_controller) "posts" = Some marked
  ∧ outcome_of
      (default site "GET" user_controller ["bob"; "posts"; "my-first-post"] []
         start)
    = Return (VList [VStr "html"; VObj 100])
  ∧ trace_of
      (default site "GET" user_controller ["bob"; "posts"; "my-first-post"] []
         start)
    = [EWarning (MsgVpath ["bob"; "posts"; "my-first-post"]);
       EInstantiate user_controller "bob" (Return (VObj 0));
       ESetParent post_controller (VObj 0);
       EWarning (MsgVpath ["my-first-post"]);
       EInstantiate post_controller "my-first-post" (Return (VObj 100));
       EInvoke post_controller "index" marked (VObj 100) [] []
         (Return (VList [VStr "html"; VObj 100]))].
Proof. split_all; compute_it. Qed.

(** C5, where the code departs from it. [GET /user/bob/REST_create]: the
    segment names a method of the controller that carries no
    [expose_resource]. It is not called, but the request does not end in
    NotFound: [getattr(method, "expose_resource")] raises
    [AttributeError], and nothing catches it. The same method reached
    through the verb mapping ends in NotFound. *)
Theorem unmarked_segment_raises_AttributeError :
  py_getattr site (heap start !!! user_controller) "REST_create"
  = Some unmarked
  ∧ exposed unmarked = false
  ∧ default site "GET" user_controller ["bob"; "REST_create"] [] start
    = (Raise AttributeError, start,
       [EWarning (MsgVpath ["bob"; "REST_create"]);
        EInstantiate user_controller "bob" (Return (VObj 0))])
  ∧ dispatch_to site "GET" user_controller "REST_create" (VObj 0) [] start
    = (Raise NotFound, start, []).
Proof. split_all; compute_it. Qed.

(** An attribute that carries a false [expose_resource] does end in
    NotFound, on both routes. *)
Example marked_false_is_not_found :
  py_getattr site (heap start !!! post_controller) "add"
  = Some (function (Some (VBool false)))
  ∧ outcome_of (default site "POST" post_controller ["x"; "add"] [] start)
    = Raise NotFound
  ∧ outcome_of (REST_dispatch site "POST" post_controller (VObj 0) [] start)
    = Raise NotFound.
Proof. split_all; compute_it. Qed.

(** [PATCH] is mapped by the article controller to a method it does not
    have; [OPTIONS] is mapped by nothing. *)
Lemma REST_dispatch_bad_request_or_not_found_witness :
  REST_dispatch site "PATCH" article_controller (VObj 0) [] start
  = (Raise (HTTPError 400), start, [EWarning (MsgUnsupported "PATCH" (VObj 0))])
  ∧ REST_dispatch site "OPTIONS" article_controller (VObj 0) [] start
    = (Raise NotFound, start, []).
Proof.
  split.
  - apply (proj1 (REST_dispatch_bad_request_or_not_found site "PATCH"
                    article_controller (VObj 0) [] start) "patch");
      compute_it.
  - apply (proj2 (REST_dispatch_bad_request_or_not_found site "OPTIONS"
                    article_controller (VObj 0) [] start));
      compute_it.
Defined.

(** [POST] on an article: [broken] appends to the database, then raises. *)
Lemma REST_dispatch_swallows_handler_exception_witness :
  REST_dispatch site "POST" article_controller (VObj 0) [] start
  = (Raise NotFound,
     {| heap := controllers; app_state := ["bob"; "half-done"] |},
     [EInvoke article_controller "broken" marked (VObj 0) [] []
        (Raise (OtherError "ValueError"))]).
Proof.
  apply (REST_dispatch_swallows_handler_exception site "POST"
           article_controller "broken" (VObj 0) [] start marked
           (OtherError "ValueError"));
    compute_it.
Defined.






(** ** More requests *)

Import Variants.

(** [GET /user/bob/extra_action/now]. *)
Lemma default_calls_segment_method_witness :
  default site "GET" user_controller ["bob"; "extra_action"; "now"] [] start
  = (Return (VStr "ok"), start,
     [EWarning (MsgVpath ["bob"; "extra_action"; "now"]);
      EInstantiate user_controller "bob" (Return (VObj 0));
      EInvoke user_controller "extra_action" marked (VObj 0) ["now"] []
        (Return (VStr "ok"))]).
Proof.
  apply (default_calls_segment_method site "GET" user_controller "bob"
           "extra_action" ["now"] [] start (VObj 0) start marked
           (Return (VStr "ok")) start);
    [compute_it | discriminate | compute_it..].
Defined.

(** [GET /user/bob/nothing]: the user controller has no such attribute. *)
Lemma default_segment_not_found_witness :
  default site "GET" user_controller ["bob"; "nothing"] [] start
  = (Raise NotFound, start,
     [EWarning (MsgVpath ["bob"; "nothing"]);
      EInstantiate user_controller "bob" (Return (VObj 0))]).
Proof.
  apply (default_segment_not_found site "GET" user_controller "bob" "nothing"
           [] [] start (VObj 0) start);
    [compute_it | discriminate | compute_it | left; compute_it].
Defined.

(** With no hook overridden, [GET /user/bob/posts]. *)
Lemma default_instantiate_failure_witness :
  default bare_site "GET" user_controller ["bob"; "posts"] [] start
  = (Raise NotFound, start,
     [EWarning (MsgVpath ["bob"; "posts"]);
      EInstantiate user_controller "bob" (Raise NotFound)]).
Proof.
  apply (default_instantiate_failure bare_site "GET" user_controller "bob"
           ["posts"] [] start NotFound start).
  reflexivity.
Defined.

(** With [REST_create] not overridden, [PUT /user/joe]. *)
Lemma default_create_failure_witness :
  default static_site "PUT" user_controller ["joe"] [] start
  = (Raise NotFound, start,
     [EWarning (MsgVpath ["joe"]);
      EInstantiate user_controller "joe" (Return VNone);
      ECreate user_controller "joe" (Raise NotFound)]).
Proof.
  apply (default_create_failure static_site user_controller "joe" [] [] start
           start NotFound start); [compute_it | reflexivity].
Defined.

Lemma default_with_base_hooks_witness :
  (outcome_of (default bare_site "DELETE" user_controller ["bob"] [] start)
   = Raise NotFound
   ∧ world_of (default bare_site "DELETE" user_controller ["bob"] [] start)
     = start)
  ∧ (outcome_of (default static_site "PUT" user_controller ["joe"] [] start)
     = Raise NotFound
     ∧ world_of (default static_site "PUT" user_controller ["joe"] [] start)
       = start).
Proof.
  split.
  - apply (proj1 (default_with_base_hooks bare_site "DELETE" user_controller
                    "bob" [] [] start)).
    reflexivity.
  - apply (proj2 (default_with_base_hooks static_site "PUT" user_controller
                    "joe" [] [] start)); [reflexivity | compute_it].
Defined.

Lemma default_creates_only_under_PUT_witness :
  Forall (λ ev, is_create ev = false)
    (trace_of (default site "GET" user_controller
                 ["joe"; "posts"; "my-first-post"] [] start)).
Proof.
  apply (default_creates_only_under_PUT site "GET" user_controller
           ["joe"; "posts"; "my-first-post"] [] start).
  discriminate.
Defined.


Lemma REST_dispatch_calls_mapped_only_witness :
  ∃ name m res,
    mapped_name (heap start !!! user_controller) "GET" = Some name
    ∧ py_getattr site (heap start !!! user_controller) name = Some m
    ∧ exposed m = true
    ∧ EInvoke user_controller "index" marked (VObj 0) [] []
        (Return (VList [VStr "html"; VObj 0]))
      = EInvoke user_controller name m (VObj 0) [] [] res.
Proof.
  apply (REST_dispatch_calls_mapped_only site "GET" user_controller (VObj 0)
           [] start); [|reflexivity].
  replace (trace_of (REST_dispatch site "GET" user_controller (VObj 0) [] start))
    with [EInvoke user_controller "index" marked (VObj 0) [] []
            (Return (VList [VStr "html"; VObj 0]))] by compute_it.
  apply list_elem_of_here.
Defined.

(** [POST] on a post: [add] carries [expose_resource = False]. *)
Lemma REST_dispatch_unexposed_not_found_witness :
  REST_dispatch site "POST" post_controller (VObj 0) [] start
  = (Raise NotFound, start, []).
Proof.
  apply (REST_dispatch_unexposed_not_found site "POST" post_controller "add"
           (VObj 0) [] start (function (Some (VBool false)))); compute_it.
Defined.

(** After [GET /user/bob/posts/my-first-post] the post controller still
    has bob as its parent. *)
Lemma default_leaves_last_parent_witness :
  parent (heap (world_of (default site "GET" user_controller
                            ["bob"; "posts"; "my-first-post"] [] start))
          !!! post_controller)
  = match last_parent post_controller
            (trace_of (default site "GET" user_controller
                         ["bob"; "posts"; "my-first-post"] [] start)) with
    | Some resource => Some resource
    | None => parent (heap start !!! post_controller)
    end.
Proof.
  apply (default_leaves_last_parent site "GET" user_controller
           ["bob"; "posts"; "my-first-post"] [] start post_controller).
  exact site_keeps_heap.
Defined.

Example parent_after_first_post :
  last_parent post_controller
    (trace_of (default site "GET" user_controller
                 ["bob"; "posts"; "my-first-post"] [] start))
  = Some (VObj 0).
Proof. compute_it. Qed.

(** [PUT /user/joe/posts/first]: joe is created on the way. *)
Lemma default_PUT_creates_then_delegates_witness :
  default site "PUT" user_controller ["joe"; "posts"; "first"] [] start
  = let '(res, w', t) :=
      default site "PUT" post_controller ["first"] []
        (set_parent post_controller (VObj 1)
           {| heap := controllers; app_state := ["bob"; "joe"] |}) in
    (res, w',
     EWarning (MsgVpath ["joe"; "posts"; "first"])
     :: EInstantiate user_controller "joe" (Return VNone)
     :: ECreate user_controller "joe" (Return (VObj 1))
     :: ESetParent post_controller (VObj 1) :: t).
Proof.
  apply (default_PUT_creates_then_delegates site user_controller "joe" "posts"
           ["first"] [] start start (VObj 1)
           {| heap := controllers; app_state := ["bob"; "joe"] |}
           post_controller); compute_it.
Defined.

Lemma static_site_pure : callbacks_pure static_site.
Proof.
  unfold callbacks_pure. split_all; [|done..].
  intros self id w. cbn. unfold instantiate. by repeat case_match.
Qed.

(** [GET /user/bob], twice. *)
Lemma default_pure_callbacks_witness :
  world_of (default static_site "GET" user_controller ["bob"] [] start) = start
  ∧ default static_site "GET" user_controller ["bob"] []
      (world_of (default static_site "GET" user_controller ["bob"] [] start))
    = default static_site "GET" user_controller ["bob"] [] start.
Proof.
  apply (default_pure_callbacks static_site "GET" user_controller ["bob"] []
           start static_site_pure).
  compute_it.
Defined.


